(** * firstlevelpipeline.py: a first-level fMRI analysis script

    The script builds nipype nodes, wires them into nested workflows,
    declares a subject iterable and runs the result on a two-worker pool.
    This development embeds the script's data and statements, a store of
    the Python objects they manipulate, and the workflow engine the script
    drives. *)

From Stdlib Require Import ZArith Floats Uint63 Ascii.
From stdpp Require Import base gmap sets list strings relations infinite.

Set Warnings "-inexact-float,-register-all".
Set Default Proof Using "Type".
Open Scope Z_scope.

(** ** Python values

    Numbers keep the distinction the literals make: [1] is an int, [49.6]
    and [8.] are binary64 floats.  A [Bunch] holds its keywords in
    the order the call writes them; a [dict] is a finite map, its keys in
    no order. *)
Module Py.

Inductive value :=
| VNone
| VUndefined
| VBool (b : bool)
| VInt (z : Z)
| VFloat (f : float)
| VStr (s : string)
| VList (l : list value)
| VTuple (l : list value)
| VDict (d : gmap string value)
| VBunch (d : list (string * value))
| VFun (name : string).

#[global] Instance value_inhabited : Inhabited value := populate VNone.

(** [b.key] on a Bunch: the first binding of the keyword. *)
Fixpoint assoc (key : string) (d : list (string * value)) : option value :=
  match d with
  | [] => None
  | (k, v) :: d' => if decide (k = key) then Some v else assoc key d'
  end.

Definition attr (b : value) (key : string) : option value :=
  match b with
  | VBunch d => assoc key d
  | _ => None
  end.

Definition strs (l : list string) : value := VList (VStr <$> l).
Definition ints (l : list Z) : value := VList (VInt <$> l).

End Py.
Import Py.

(** ** Experiment specific parameters (lines 21-31) *)

Definition experiment_dir : string := "~SOMEPATH/experiment".
Definition subjects : list string := ["subject1"; "subject2"; "subject3"].
Definition sessions : list string := ["func1"; "func2"].
Definition nameOflevel1Out : string := "results/level1_output".
Definition nameOfWorkingdir : string := "/results/workingdir".
Definition subjects_dir : string := experiment_dir +:+ "/freesurfer_data".

(** ** subjectinfo (lines 236-273) *)

Definition namesOfConditions : list string :=
  ["basic"; "condition1"; "condition2"; "condition3"].

Definition onsetTimes : value :=
  VList
    [ VList [VInt 1; VInt 10; VInt 42; VFloat 49.6; VFloat 66.1; VFloat 74.1;
             VFloat 97.6; VFloat 113.6; VFloat 122.2; VFloat 130.2;
             VFloat 137.2; VFloat 153.7; VFloat 169.2; VFloat 185.7;
             VFloat 201.8; VFloat 290.4; VFloat 313.4; VFloat 321.4;
             VFloat 377.5; VFloat 401.5; VInt 410; VFloat 418.6; VFloat 442.1;
             VFloat 473.6];
      VList [VFloat 17.5; VFloat 82.1; VFloat 89.6; VFloat 145.2; VFloat 225.3;
             VFloat 242.3; VFloat 281.4; VFloat 426.6];
      VList [VInt 26; VFloat 162.2; VFloat 209.3; VFloat 249.3; VFloat 265.9;
             VFloat 205.4; VFloat 450.1; VInt 386];
      VList [VInt 34; VFloat 273.4; VFloat 329.5; VFloat 338.5; VInt 354;
             VInt 362; VInt 370; VFloat 466.4] ].

Definition modulator (p1 p2 : list Z) : value :=
  VBunch [ ("name", strs ["target2"; "target3"]);
           ("poly", VList [ints [1]; ints [1]]);
           ("param", VList [ints p1; ints p2]) ].

Definition para_modu : value :=
  VList
    [ VNone;
      modulator [0;0;1;0;0;0;0;0] [0;0;0;0;1;0;0;1];
      modulator [0;0;0;1;1;1;0;0] [1;0;0;0;0;0;1;1];
      modulator [0;1;0;0;0;1;0;1] [0;0;0;0;1;0;1;0] ].

(** The body of the [for r in range(2)] loop: one [output.append]. *)
Definition append_run (output : list value) (r : nat) : list value :=
  output ++
  [ VBunch [ ("conditions", strs namesOfConditions);
             ("onsets", onsetTimes);
             ("durations", VList ((λ s : string, ints [2]) <$> namesOfConditions));
             ("amplitudes", VNone);
             ("tmod", VNone);
             ("pmod", para_modu);
             ("regressor_names", VNone);
             ("regressors", VNone) ] ].

Definition subjectinfo (subject_id : value) : value :=
  VList (foldl append_run [] (seq 0 2)).


(** ** The object store

    [pe.Node] and [pe.Workflow] build Python objects that the script keeps
    in variables and passes by reference: the node bound to [modelspec] is
    the very object that [volanalysis.connect] stores in the workflow.  The
    store maps object identities to objects; a workflow holds its members
    and the endpoints of its connections as identities. *)
Module Store.

Definition oid := positive.

(** [spm.Realign()], [util.IdentityInterface(fields=[...])], ... *)
Record interface := Interface {
  i_kind : string;
  i_args : list (string * value) }.

(** The source side of a port pair: ['mean_image'], or
    [('subject_id', subjectinfo)] with a function applied on the way. *)
Inductive src_port :=
| Out (port : string)
| OutFn (port : string) (fn : string).

Definition port_name (p : src_port) : string :=
  match p with Out s | OutFn s _ => s end.

Record edge := Edge {
  e_src : oid;
  e_sport : src_port;
  e_dst : oid;
  e_dport : string }.

Inductive obj :=
| ONode (name : string) (iface : interface) (inputs : gmap string value)
        (iterables : list (string * list value))
| OWorkflow (name : string) (base_dir : option string) (members : list oid)
            (edges : list edge).

Definition obj_name (o : obj) : string :=
  match o with ONode n _ _ _ | OWorkflow n _ _ _ => n end.

#[global] Instance src_port_eq_dec : EqDecision src_port.
Proof. solve_decision. Defined.
#[global] Instance edge_eq_dec : EqDecision edge.
Proof. solve_decision. Defined.

(** A new object gets an identity no object of the store has. *)
Definition alloc (h : gmap oid obj) (o : obj) : gmap oid obj * oid :=
  let r := fresh (dom h) in (<[r := o]> h, r).

(** [node.inputs.f]: an input that was never set reads as Undefined. *)
Definition input_of (h : gmap oid obj) (n : oid) (f : string) : value :=
  match h !! n with
  | Some (ONode _ _ ins _) => default VUndefined (ins !! f)
  | _ => VUndefined
  end.

Definition edges_of (h : gmap oid obj) (w : oid) : list edge :=
  match h !! w with
  | Some (OWorkflow _ _ _ es) => es
  | _ => []
  end.

Definition members_of (h : gmap oid obj) (w : oid) : list oid :=
  match h !! w with
  | Some (OWorkflow _ _ ms _) => ms
  | _ => []
  end.

(** The member of workflow [w] that is named [m]. *)
Definition member_named (h : gmap oid obj) (w : oid) (m : string) : option oid :=
  snd <$> list_find (λ o, obj_name <$> h !! o = Some m) (members_of h w).

(** ['a.b.c'] cut at its first dot: [('a', 'b.c')]. *)
Fixpoint cut_dot (s : string) : option (string * string) :=
  match s with
  | EmptyString => None
  | String c s' =>
      if Ascii.eqb c "."%char then Some (EmptyString, s')
      else (λ ab, (String c ab.1, ab.2)) <$> cut_dot s'
  end.

(** Modelled from the spec: port exposure (section 4.2; nipype's own lookup
    of a workflow's ports is missing).  The node and port that [port], named
    on [o], stands for: on a node the port itself; on a workflow,
    ['member.rest'] stands for what [rest] stands for on the member of that
    name, and a name that leads to no member stands for nothing. *)
Fixpoint target (fuel : nat) (h : gmap oid obj) (o : oid) (port : string)
    : option (oid * string) :=
  match fuel with
  | O => None
  | S fuel' =>
    match h !! o with
    | Some (ONode _ _ _ _) => Some (o, port)
    | Some (OWorkflow _ _ _ _) =>
        ab ← cut_dot port; o' ← member_named h o ab.1; target fuel' h o' ab.2
    | None => None
    end
  end.

(** Every level of nesting takes a dot of the name. *)
Definition port_target (h : gmap oid obj) (o : oid) (port : string)
    : option (oid * string) :=
  target (S (String.length port)) h o port.

(** The identity of a node as the engine names it: the names of the
    workflows that contain it, outermost first, then its own name. *)
Fixpoint node_ids (fuel : nat) (h : gmap oid obj) (prefix : list string)
    (o : oid) : list (list string) :=
  match fuel with
  | O => []
  | S fuel' =>
    match h !! o with
    | Some (ONode n _ _ _) => [prefix ++ [n]]
    | Some (OWorkflow n _ ms _) => ms ≫= node_ids fuel' h (prefix ++ [n])
    | None => []
    end
  end.


(** [contained h d o]: [o] and everything below it is allocated, connections
    run between members, and the nesting is at most [d] deep. *)
Inductive contained (h : gmap oid obj) : nat → oid → Prop :=
| contained_node d o n i ins its :
    h !! o = Some (ONode n i ins its) → contained h (S d) o
| contained_workflow d o n bd ms es :
    h !! o = Some (OWorkflow n bd ms es) →
    Forall (contained h d) ms →
    Forall (λ e, e_src e ∈ ms ∧ e_dst e ∈ ms) es →
    contained h (S d) o.

End Store.
Import Store.

(** ** Errors *)

Inductive config_reason :=
| UnknownPort
| TypeMismatch
| AlreadyConnected
| UnsatisfiedInput.

Inductive error :=
| NameError (x : string)
| AttributeError (x : string)
| ConfigurationError (why : config_reason)
| CycleError.

#[global] Instance config_reason_eq_dec : EqDecision config_reason.
Proof. solve_decision. Defined.
#[global] Instance error_eq_dec : EqDecision error.
Proof. solve_decision. Defined.

(** What a statement leaves behind: the store, and the exception if one
    was raised. *)
Inductive result (S : Type) :=
| Ok (s : S)
| Raise (e : error) (s : S).
Arguments Ok {S} s.
Arguments Raise {S} e s.

(** ** Workflow composition

    The interface descriptors of the node kinds (which ports a
    [spm.Realign] or a [DataSink] has, and their types) are not part of the
    script: they are a parameter of the engine. *)
Record registry := Registry {
  has_output : gmap oid obj → oid → string → bool;
  has_input : gmap oid obj → oid → string → bool;
  compatible : gmap oid obj → oid → string → oid → string → bool }.

(** A registry that knows every port of a node and finds every pair
    compatible.  Of a workflow it knows the ports that lead to a node: what
    a workflow exposes are the ports of its members. *)
Definition permissive : registry :=
  Registry (λ h o p, bool_decide (is_Some (port_target h o p)))
           (λ h o p, bool_decide (is_Some (port_target h o p)))
           (λ _ _ _ _ _, true).

Module Engine.

(** [connected es d p]: destination port [p] of [d] has a recorded
    connection. *)
Definition connected (es : list edge) (d : oid) (p : string) : Prop :=
  Exists (λ e, e_dst e = d ∧ e_dport e = p) es.

#[global] Instance connected_dec es d p : Decision (connected es d p).
Proof. unfold connected. apply _. Defined.

(** A destination port receives at most one connection. *)
Definition single_producer (es : list edge) : Prop :=
  NoDup ((λ e, (e_dst e, e_dport e)) <$> es).

(** Both ports of the pair are declared by the interface descriptors, with
    compatible types. *)
Definition declared (reg : registry) (h : gmap oid obj) (e : edge) : Prop :=
  has_output reg h (e_src e) (port_name (e_sport e)) = true ∧
  has_input reg h (e_dst e) (e_dport e) = true ∧
  compatible reg h (e_src e) (port_name (e_sport e)) (e_dst e) (e_dport e) = true.

(** Modelled from the spec: the validation [connect] runs on one port pair
    (the body of nipype's [Workflow.connect] is missing).  The pair is
    rejected on an unknown port, on a type mismatch, or when its
    destination port already has a connection. *)
Definition check_pair (reg : registry) (h : gmap oid obj) (es : list edge)
    (e : edge) : option config_reason :=
  if negb (has_output reg h (e_src e) (port_name (e_sport e))
           && has_input reg h (e_dst e) (e_dport e))
  then Some UnknownPort
  else if negb (compatible reg h (e_src e) (port_name (e_sport e))
                  (e_dst e) (e_dport e))
  then Some TypeMismatch
  else if decide (connected es (e_dst e) (e_dport e))
  then Some AlreadyConnected
  else None.

(** Modelled from the spec: [connect] validates each port pair in turn, a
    pair counting as recorded for the pairs after it in the same call. *)
Fixpoint validate (reg : registry) (h : gmap oid obj) (es new : list edge)
    : config_reason + list edge :=
  match new with
  | [] => inr es
  | e :: rest =>
    match check_pair reg h es e with
    | Some why => inl why
    | None => validate reg h (es ++ [e]) rest
    end
  end.

Definition pairs_of (cs : list (oid * oid * list (src_port * string)))
    : list edge :=
  '(s, d, ps) ← cs; (λ '(sp, dp), Edge s sp d dp) <$> ps.

Definition add_member (ms : list oid) (o : oid) : list oid :=
  if decide (o ∈ ms) then ms else ms ++ [o].

Definition add_members (ms : list oid) (new : list edge) : list oid :=
  foldl (λ acc e, add_member (add_member acc (e_src e)) (e_dst e)) ms new.

(** Modelled from the spec: [connect(list of (source, dest, port-pairs))]
    of section 4.2 (nipype's [Workflow.connect] is missing).  Every pair is
    validated before any edge is recorded; a rejected pair raises
    [ConfigurationError] and leaves the workflow as it was. *)
Definition connect (reg : registry) (h : gmap oid obj) (w : oid)
    (cs : list (oid * oid * list (src_port * string)))
    : result (gmap oid obj) :=
  match h !! w with
  | Some (OWorkflow name bd ms es) =>
    match validate reg h es (pairs_of cs) with
    | inl why => Raise (ConfigurationError why) h
    | inr es' =>
        Ok (<[w := OWorkflow name bd (add_members ms (pairs_of cs)) es']> h)
    end
  | _ => Raise (AttributeError "connect") h
  end.

(** The copy of an identity under the memo of a deep copy. *)
Definition rename (memo : gmap oid oid) (o : oid) : oid :=
  default o (memo !! o).

Definition rename_edge (memo : gmap oid oid) (e : edge) : edge :=
  Edge (rename memo (e_src e)) (e_sport e) (rename memo (e_dst e)) (e_dport e).

(** Modelled from the spec: the deep structural copy behind [clone]
    (nipype's [EngineBase.clone] is missing).  Each object below [o] is
    copied once to a fresh identity, recorded in the memo; members and
    connection endpoints of a copied workflow are the copies. *)
Fixpoint deepcopy (fuel : nat) (o : oid)
    (hm : gmap oid obj * gmap oid oid) : option (gmap oid obj * gmap oid oid) :=
  match fuel with
  | O => None
  | S fuel' =>
    match hm.2 !! o with
    | Some _ => Some hm
    | None =>
      match hm.1 !! o with
      | None => None
      | Some (ONode n i ins its) =>
          let o' := fresh (dom hm.1) in
          Some (<[o' := ONode n i ins its]> hm.1, <[o := o']> hm.2)
      | Some (OWorkflow n bd ms es) =>
          hm' ← foldl (λ acc m, acc ≫= deepcopy fuel' m) (Some hm) ms;
          let o' := fresh (dom hm'.1) in
          Some (<[o' := OWorkflow n bd (rename hm'.2 <$> ms)
                          (rename_edge hm'.2 <$> es)]> hm'.1,
                <[o := o']> hm'.2)
      end
    end
  end.

(** Modelled from the spec: [clone(new_name)] of section 4.2: a deep,
    independently mutable copy of the workflow, rooted at [new_name], with
    every internal connection preserved. *)
Definition clone (fuel : nat) (h : gmap oid obj) (w : oid) (new_name : string)
    : option (gmap oid obj * oid) :=
  '(h', memo) ← deepcopy fuel w (h, ∅);
  w' ← memo !! w;
  match h' !! w' with
  | Some (OWorkflow _ bd ms es) =>
      Some (<[w' := OWorkflow new_name bd ms es]> h', w')
  | _ => None
  end.

(** Modelled from the spec: where an input port takes its value from
    (section 3: from exactly one producer or one static parameter).  A
    recorded connection into the port supplies what its producer made;
    otherwise the parameter bound at definition time is used. *)
Definition resolved_input (h : gmap oid obj) (es : list edge)
    (produced : oid → src_port → value) (n : oid) (port : string) : value :=
  match list_find (λ e, e_dst e = n ∧ e_dport e = port) es with
  | Some (_, e) => produced (e_src e) (e_sport e)
  | None => input_of h n port
  end.

End Engine.

(** ** The execution graph, its validation and its scheduler

    Once the workflows are flattened and the iterables expanded, the engine
    works on a graph of node identities.  Identities [I], cache
    fingerprints [F] and output maps [A] are left open here. *)
Module Exec.
Section exec.
Context {I : Type} `{Countable I}.
Context {F : Type} `{Countable F}.
Context {A : Type}.

Record xedge := XEdge {
  x_src : I;
  x_sport : string;
  x_dst : I;
  x_dport : string }.

Record xgraph := XGraph {
  x_nodes : list I;
  x_edges : list xedge }.

(** The upstream dependencies of a node, one per incoming connection. *)
Definition preds (g : xgraph) (n : I) : list I :=
  x_src <$> filter (λ e, x_dst e = n) (x_edges g).

(** [a] feeds [b] through some connection. *)
Definition feeds (g : xgraph) (a b : I) : Prop :=
  ∃ e, e ∈ x_edges g ∧ x_src e = a ∧ x_dst e = b.

(** The connections contain a directed cycle. *)
Definition has_cycle (g : xgraph) : Prop := ∃ n, tc (feeds g) n n.

(** In an order that respects the dependencies every node comes after the
    nodes that feed it. *)
Definition topological (g : xgraph) (order : list I) : Prop :=
  ∀ i n, order !! i = Some n →
    ∀ p, p ∈ preds g n → ∃ j, (j < i)%nat ∧ order !! j = Some p.

(** What the interface descriptors say of the nodes of the graph. *)
Record descriptors := Descriptors {
  d_has_output : I → string → bool;
  d_has_input : I → string → bool;
  d_required : I → list string;
  d_has_default : I → string → bool }.

(** Modelled from the spec: check (a) of section 4.4, every referenced port
    exists (on a node of the graph). *)
Definition ports_exist (d : descriptors) (g : xgraph) : bool :=
  forallb (λ e, bool_decide (x_src e ∈ x_nodes g) &&
                bool_decide (x_dst e ∈ x_nodes g) &&
                d_has_output d (x_src e) (x_sport e) &&
                d_has_input d (x_dst e) (x_dport e)) (x_edges g).

(** A node none of whose dependencies is left: its in-degree is resolved. *)
Definition resolved (g : xgraph) (rem : list I) (n : I) : Prop :=
  Forall (λ p, p ∉ rem) (preds g n).

(** Modelled from the spec: the topological sort of check (b).  Each pass
    moves the nodes with resolved in-degree to the order; a pass that moves
    none is stable, and what remains then signals a cycle. *)
Fixpoint kahn (fuel : nat) (g : xgraph) (rem order : list I)
    : list I * list I :=
  match fuel with
  | O => (order, rem)
  | S fuel' =>
    match filter (resolved g rem) rem with
    | [] => (order, rem)
    | ready => kahn fuel' g (filter (λ n, n ∉ ready) rem) (order ++ ready)
    end
  end.

Definition toposort (g : xgraph) : list I * list I :=
  kahn (length (x_nodes g)) g (x_nodes g) [].

(** Modelled from the spec: check (c), every required input is satisfied by
    exactly one connection or by a default parameter. *)
Definition inputs_satisfied (d : descriptors) (g : xgraph) : bool :=
  forallb (λ n,
    forallb (λ p,
      let k := length (filter (λ e, x_dst e = n ∧ x_dport e = p) (x_edges g)) in
      bool_decide (k = 1%nat) || (bool_decide (k = 0%nat) && d_has_default d n p))
      (d_required d n)) (x_nodes g).

(** Modelled from the spec: the Graph Builder/Validator of section 4.4, with
    its checks in their order; it yields the execution order or the
    structural error. *)
Definition build (d : descriptors) (g : xgraph) : error + list I :=
  if negb (ports_exist d g) then inl (ConfigurationError UnknownPort)
  else match toposort g with
       | (order, []) =>
           if inputs_satisfied d g then inr order
           else inl (ConfigurationError UnsatisfiedInput)
       | (_, _ :: _) => inl CycleError
       end.

(** *** Scheduler state *)

Inductive how := Fresh | CacheHit.

Inductive status :=
| Pending
| Ready
| Running
| Succeeded (by_ : how)
| Failed
| Skipped.

#[global] Instance how_eq_dec : EqDecision how.
Proof. solve_decision. Defined.
#[global] Instance status_eq_dec : EqDecision status.
Proof. solve_decision. Defined.

Definition succeeded (x : status) : bool :=
  match x with Succeeded _ => true | _ => false end.

(** Failed or skipped: what makes the dependents skipped. *)
Definition halted (x : status) : bool :=
  match x with Failed | Skipped => true | _ => false end.

Definition terminal (x : status) : bool := succeeded x || halted x.

(** The cache is keyed by the node's identity and the fingerprint of its
    parameters and upstream keys; [disk] holds the keys whose recorded
    outputs still exist. *)
Record sched := Sched {
  st : gmap I status;
  outs : gmap I A;
  cache : gmap (I * F) A;
  disk : gset (I * F);
  started : list I }.

Definition status_of (s : sched) (n : I) : status :=
  default Pending (st s !! n).

Definition set_status (s : sched) (n : I) (x : status) : sched :=
  Sched (<[n := x]> (st s)) (outs s) (cache s) (disk s) (started s).

Definition running (s : sched) : gset I :=
  dom (filter (λ p, p.2 = Running) (st s)).

Definition init (c0 : gmap (I * F) A) (d0 : gset (I * F)) : sched :=
  Sched ∅ ∅ c0 d0 [].

(** *** The run parameters: the graph, the worker count, the external
    tools and the fingerprints *)
Context (g : xgraph) (workers : nat).
Context (execute : I → list (option A) → option A).
Context (fingerprint : I → F).

Definition key (n : I) : I * F := (n, fingerprint n).

(** Modelled from the spec: the lookup of section 4.5; an entry whose
    outputs are gone from the disk counts as a miss. *)
Definition lookup_cache (s : sched) (n : I) : option A :=
  if decide (key n ∈ disk s) then cache s !! key n else None.

(** What the upstream producers hand to [n], one per incoming connection. *)
Definition inputs (s : sched) (n : I) : list (option A) :=
  (λ p, outs s !! p) <$> preds g n.

Inductive event :=
| EvReady (n : I)
| EvSkip (n : I)
| EvHit (n : I)
| EvStart (n : I)
| EvFinish (n : I).

(** Modelled from the spec: the per-node state machine of section 4.6 with
    the lookup policy of section 4.5.  [step ev s] is the state after [ev],
    or [None] when the scheduler cannot take [ev] in [s]. *)
Definition step (ev : event) (s : sched) : option sched :=
  match ev with
  | EvReady n =>
      if decide (n ∈ x_nodes g ∧ status_of s n = Pending ∧
                 Forall (λ p, succeeded (status_of s p) = true) (preds g n))
      then Some (set_status s n Ready) else None
  | EvSkip n =>
      if decide (n ∈ x_nodes g ∧ status_of s n = Pending ∧
                 Exists (λ p, halted (status_of s p) = true) (preds g n))
      then Some (set_status s n Skipped) else None
  | EvHit n =>
      if decide (status_of s n = Ready) then
        o ← lookup_cache s n;
        Some (Sched (<[n := Succeeded CacheHit]> (st s)) (<[n := o]> (outs s))
                (cache s) (disk s) (started s))
      else None
  | EvStart n =>
      if decide (status_of s n = Ready ∧ lookup_cache s n = None ∧
                 (size (running s) < workers)%nat)
      then Some (Sched (<[n := Running]> (st s)) (outs s) (cache s) (disk s)
                   (started s ++ [n]))
      else None
  | EvFinish n =>
      if decide (status_of s n = Running) then
        match execute n (inputs s n) with
        | Some o =>
            Some (Sched (<[n := Succeeded Fresh]> (st s)) (<[n := o]> (outs s))
                    (<[key n := o]> (cache s)) ({[key n]} ∪ disk s) (started s))
        | None => Some (set_status s n Failed)
        end
      else None
  end.

(** A schedule is the order in which the scheduler and its workers act. *)
Fixpoint play (sch : list event) (s : sched) : option sched :=
  match sch with
  | [] => Some s
  | ev :: sch' => step ev s ≫= play sch'
  end.

(** The run ends when no node is pending or ready. *)
Definition run_ended (s : sched) : Prop :=
  Forall (λ n, status_of s n ≠ Pending ∧ status_of s n ≠ Ready) (x_nodes g).

(** Every node is in a terminal state: the table the scheduler reports. *)
Definition settled (s : sched) : Prop :=
  Forall (λ n, terminal (status_of s n) = true) (x_nodes g).

(** What a run reports. *)
Record report := Report {
  r_error : option error;
  r_final : sched }.

(** Modelled from the spec: a run builds the graph first and aborts on a
    structural error before the scheduler has taken any step. *)
Definition run (d : descriptors) (c0 : gmap (I * F) A) (d0 : gset (I * F))
    (sch : list event) : option report :=
  match build d g with
  | inl e => Some (Report (Some e) (init c0 d0))
  | inr _ => Report None <$> play sch (init c0 d0)
  end.

End exec.
End Exec.


(** What the passes of the topological sort maintain: the order built so
    far respects the dependencies, and every node is either placed or still
    remaining, never both. *)
Section sorting.
Context {I : Type} `{Countable I}.

Record sorting (g : @Exec.xgraph I) (rem order : list I) : Prop := Sorting {
  sorting_topo : Exec.topological g order;
  sorting_cover : ∀ n, n ∈ Exec.x_nodes g → n ∈ order ∨ n ∈ rem;
  sorting_rem : ∀ n, n ∈ rem → n ∉ order }.

End sorting.

(** ** The statements of the script

    The script is a straight line of object constructions, input
    assignments and calls of [connect] and [clone].  Variables are bound to
    object identities. *)
Module Script.

Record state := State {
  env : gmap string oid;
  heap : gmap oid obj }.

Definition initial : state := State ∅ ∅.

Inductive expr :=
| Lit (v : value)
| InputOf (x f : string).

Inductive stmt :=
| NewWorkflow (x name : string)
| NewNode (x : string) (iface : interface) (name : string)
| SetInput (x f : string) (e : expr)
| SetInputVia (w member f : string) (e : expr)
| SetIterables (x f : string) (vs : list value)
| SetBaseDir (w dir : string)
| Connect (w : string) (cs : list (string * string * list (src_port * string)))
| Clone (x w name : string).

(** [x.inputs.f] as an expression, in a state where [x] is bound. *)
Definition eval (e : expr) (s : state) : error + value :=
  match e with
  | Lit v => inr v
  | InputOf x f =>
    match env s !! x with
    | Some o => inr (input_of (heap s) o f)
    | None => inl (NameError x)
    end
  end.

Definition set_input (h : gmap oid obj) (o : oid) (f : string) (v : value)
    : option (gmap oid obj) :=
  match h !! o with
  | Some (ONode n i ins its) => Some (<[o := ONode n i (<[f := v]> ins) its]> h)
  | _ => None
  end.

(** The objects the variables of a connection list stand for. *)
Fixpoint resolve (ρ : gmap string oid)
    (cs : list (string * string * list (src_port * string)))
    : error + list (oid * oid * list (src_port * string)) :=
  match cs with
  | [] => inr []
  | (x, y, ps) :: cs' =>
    match ρ !! x, ρ !! y, resolve ρ cs' with
    | None, _, _ => inl (NameError x)
    | _, None, _ => inl (NameError y)
    | _, _, inl e => inl e
    | Some s, Some d, inr r => inr ((s, d, ps) :: r)
    end
  end.

Definition exec (reg : registry) (c : stmt) (s : state) : result state :=
  match c with
  | NewWorkflow x name =>
      let '(h, o) := alloc (heap s) (OWorkflow name None [] []) in
      Ok (State (<[x := o]> (env s)) h)
  | NewNode x iface name =>
      let '(h, o) := alloc (heap s) (ONode name iface ∅ []) in
      Ok (State (<[x := o]> (env s)) h)
  | SetInput x f e =>
    match eval e s, env s !! x with
    | inl err, _ => Raise err s
    | _, None => Raise (NameError x) s
    | inr v, Some o =>
      match set_input (heap s) o f v with
      | Some h => Ok (State (env s) h)
      | None => Raise (AttributeError x) s
      end
    end
  | SetInputVia w m f e =>
    match eval e s, env s !! w with
    | inl err, _ => Raise err s
    | _, None => Raise (NameError w) s
    | inr v, Some o =>
      match member_named (heap s) o m ≫= λ n, set_input (heap s) n f v with
      | Some h => Ok (State (env s) h)
      | None => Raise (AttributeError m) s
      end
    end
  | SetIterables x f vs =>
    match env s !! x with
    | None => Raise (NameError x) s
    | Some o =>
      match heap s !! o with
      | Some (ONode n i ins _) =>
          Ok (State (env s) (<[o := ONode n i ins [(f, vs)]]> (heap s)))
      | _ => Raise (AttributeError x) s
      end
    end
  | SetBaseDir w dir =>
    match env s !! w with
    | None => Raise (NameError w) s
    | Some o =>
      match heap s !! o with
      | Some (OWorkflow n _ ms es) =>
          Ok (State (env s) (<[o := OWorkflow n (Some dir) ms es]> (heap s)))
      | _ => Raise (AttributeError w) s
      end
    end
  | Connect w cs =>
    match env s !! w, resolve (env s) cs with
    | None, _ => Raise (NameError w) s
    | _, inl err => Raise err s
    | Some o, inr cs' =>
      match Engine.connect reg (heap s) o cs' with
      | Ok h => Ok (State (env s) h)
      | Raise err h => Raise err (State (env s) h)
      end
    end
  | Clone x w name =>
    match env s !! w with
    | None => Raise (NameError w) s
    | Some o =>
      match Engine.clone (S (size (heap s))) (heap s) o name with
      | Some (h, o') => Ok (State (<[x := o']> (env s)) h)
      | None => Raise (AttributeError w) s
      end
    end
  end.

(** Python stops at the first exception. *)
Fixpoint run (reg : registry) (p : list stmt) (s : state) : result state :=
  match p with
  | [] => Ok s
  | c :: p' =>
    match exec reg c s with
    | Ok s' => run reg p' s'
    | Raise e s' => Raise e s'
    end
  end.

(** The statements run one by one, each exception noted with the position
    of its statement and the run continued after it. *)
Fixpoint run_each (reg : registry) (p : list stmt) (i : nat) (s : state)
    : state * list (nat * error) :=
  match p with
  | [] => (s, [])
  | c :: p' =>
    match exec reg c s with
    | Ok s' => run_each reg p' (S i) s'
    | Raise e s' =>
        let '(s'', errs) := run_each reg p' (S i) s' in (s'', (i, e) :: errs)
    end
  end.

(** The object a variable is bound to, and reads through it. *)
Definition var (s : state) (x : string) : oid := default 1%positive (env s !! x).
Definition input (s : state) (x f : string) : value := input_of (heap s) (var s x) f.
Definition edges (s : state) (w : string) : list edge := edges_of (heap s) (var s w).

(** The destination ports a program asks [connect] for, with the variable
    of the destination. *)
Definition destinations (p : list stmt) : list (string * string) :=
  c ← p;
  match c with
  | Connect _ cs => '(_, d, ps) ← cs; (λ '(_, dp), (d, dp)) <$> ps
  | _ => []
  end.

End Script.
Import Script.

(** ** The script, section by section *)

(** Lines 39-85: the preprocessing nodes. *)
Definition preproc_nodes : list stmt :=
  [ NewWorkflow "preproc" "preproc";
    NewNode "sliceTiming" (Interface "spm.SliceTiming" []) "sliceTiming";
    SetInput "sliceTiming" "num_slices" (Lit (VInt 28));
    SetInput "sliceTiming" "time_repetition" (Lit (VFloat 2.0));
    SetInput "sliceTiming" "time_acquisition" (Lit (VFloat (2.0 - 2.0 / 28)));
    SetInput "sliceTiming" "slice_order" (Lit (ints (seqZ 1 28)));
    SetInput "sliceTiming" "ref_slice" (Lit (VInt 1));
    NewNode "realign" (Interface "spm.Realign" []) "realign";
    SetInput "realign" "register_to_mean" (Lit (VBool true));
    NewNode "art" (Interface "ra.ArtifactDetect" []) "art";
    SetInput "art" "norm_threshold" (Lit (VFloat 0.5));
    SetInput "art" "zintensity_threshold" (Lit (VInt 3));
    SetInput "art" "mask_type" (Lit (VStr "file"));
    SetInput "art" "parameter_source" (Lit (VStr "SPM"));
    NewNode "bbregister" (Interface "fs.BBRegister" []) "bbregister";
    SetInput "bbregister" "init" (Lit (VStr "fsl"));
    SetInput "bbregister" "contrast_type" (Lit (VStr "t2"));
    NewNode "volsmooth" (Interface "spm.Smooth" []) "volsmooth";
    SetInput "volsmooth" "fwhm" (Lit (VInt 6));
    NewNode "fssource" (Interface "nio.FreeSurferSource" []) "fssource";
    SetInput "fssource" "subjects_dir" (Lit (VStr subjects_dir));
    NewNode "binarize" (Interface "fs.Binarize" []) "binarize";
    SetInput "binarize" "min" (Lit (VFloat 0.5));
    SetInput "binarize" "out_type" (Lit (VStr "nii"));
    NewNode "dilate" (Interface "math.DilateImage" []) "dilate";
    SetInput "dilate" "operation" (Lit (VStr "max"));
    SetInput "dilate" "output_type" (Lit (VStr "NIFTI")) ].

(** Lines 88-101: the argument of [preproc.connect]. *)
Definition preproc_connections : list (string * string * list (src_port * string)) :=
  [ ("sliceTiming", "realign", [(Out "timecorrected_files", "in_files")]);
    ("realign", "bbregister", [(Out "mean_image", "source_file")]);
    ("realign", "volsmooth", [(Out "realigned_files", "in_files")]);
    ("realign", "art", [(Out "realignment_parameters", "realignment_parameters");
                        (Out "mean_image", "mask_file")]);
    ("volsmooth", "art", [(Out "smoothed_files", "realigned_files")]);
    ("fssource", "binarize", [(Out "aseg", "in_file")]);
    ("binarize", "dilate", [(Out "binary_file", "in_file")]);
    ("realign", "art", [(Out "realignment_parameters", "realignment_parameters");
                        (Out "mean_image", "mask_file")]) ].

(** Lines 108-136: the volume analysis nodes. *)
Definition volanalysis_nodes : list stmt :=
  [ NewWorkflow "volanalysis" "volanalysis";
    NewNode "modelspec" (Interface "model.SpecifySparseModel" []) "modelspec";
    SetInput "modelspec" "input_units" (Lit (VStr "secs"));
    SetInput "modelspec" "time_repetition" (Lit (VFloat 8.0));
    SetInput "modelspec" "high_pass_filter_cutoff" (Lit (VInt 128));
    SetInput "modelspec" "model_hrf" (Lit (VBool true));
    SetInput "modelspec" "scale_regressors" (Lit (VBool true));
    SetInput "modelspec" "scan_onset" (Lit (VFloat 4.0));
    SetInput "modelspec" "stimuli_as_impulses" (Lit (VBool true));
    SetInput "modelspec" "time_acquisition" (Lit (VFloat 2.0));
    SetInput "modelspec" "use_temporal_deriv" (Lit (VBool false));
    SetInput "modelspec" "volumes_in_cluster" (Lit (VInt 1));
    NewNode "level1design" (Interface "spm.Level1Design" []) "level1design";
    SetInput "level1design" "bases"
      (Lit (VDict {[ "hrf" := VDict {[ "derivs" := ints [0; 0] ]} ]}));
    SetInput "level1design" "timing_units" (Lit (VStr "secs"));
    SetInput "level1design" "interscan_interval"
      (InputOf "modelspec" "time_repetition");
    NewNode "level1estimate" (Interface "spm.EstimateModel" []) "level1estimate";
    SetInput "level1estimate" "estimation_method"
      (Lit (VDict {[ "Classical" := VInt 1 ]}));
    NewNode "contrastestimate" (Interface "spm.EstimateContrast" [])
      "contrastestimate" ].

(** Lines 139-145: the argument of [volanalysis.connect]. *)
Definition volanalysis_connections : list (string * string * list (src_port * string)) :=
  [ ("modelspec", "level1design", [(Out "session_info", "session_info")]);
    ("level1design", "level1estimate", [(Out "spm_mat_file", "spm_mat_file")]);
    ("level1estimate", "contrastestimate",
       [(Out "spm_mat_file", "spm_mat_file");
        (Out "beta_images", "beta_images");
        (Out "residual_image", "residual_image")]) ].

(** Lines 153-160: the framework workflow and its input node. *)
Definition frameflow_nodes : list stmt :=
  [ NewWorkflow "frameflow" "frameflow";
    NewNode "inputnode"
      (Interface "util.IdentityInterface"
         [("fields", strs ["func"; "subject_id"; "session_info"; "contrasts"])])
      "inputnode" ].

(** Lines 163-178: the argument of the first [frameflow.connect]. *)
Definition frameflow_connections : list (string * string * list (src_port * string)) :=
  [ ("inputnode", "preproc", [(Out "func", "sliceTiming.in_files");
                              (Out "subject_id", "bbregister.subject_id");
                              (Out "subject_id", "fssource.subject_id")]);
    ("inputnode", "volanalysis", [(Out "session_info", "modelspec.subject_info");
                                  (Out "contrasts", "contrastestimate.contrasts")]);
    ("preproc", "volanalysis",
       [(Out "realign.realignment_parameters", "modelspec.realignment_parameters");
        (Out "volsmooth.smoothed_files", "modelspec.functional_runs");
        (Out "art.outlier_files", "modelspec.outlier_files");
        (Out "dilate.out_file", "level1design.mask_image")]) ].

Definition info : value :=
  VDict {[ "func" := VList [VList [VStr "subject_id"; strs sessions]];
           "struct" := VList [VList [VStr "subject_id"; VStr "struct"]] ]}.

(** Lines 187-210: infosource, datagrabber and datasink. *)
Definition io_nodes : list stmt :=
  [ NewNode "infosource"
      (Interface "util.IdentityInterface" [("fields", strs ["subject_id"])])
      "infosource";
    SetIterables "infosource" "subject_id" (VStr <$> subjects);
    NewNode "datasource"
      (Interface "nio.DataGrabber"
         [("infields", strs ["subject_id"]); ("outfields", strs ["func"; "struct"])])
      "datasource";
    SetInput "datasource" "base_directory" (Lit (VStr experiment_dir));
    SetInput "datasource" "template" (Lit (VStr "data/%s/%s.nii"));
    SetInput "datasource" "template_args" (Lit info);
    NewNode "datasink" (Interface "nio.DataSink" []) "datasink";
    SetInput "datasink" "base_directory" (Lit (VStr experiment_dir));
    SetInput "datasink" "container" (Lit (VStr nameOflevel1Out)) ].

(** Lines 221-228: the contrasts. *)
Definition contrast (name : string) (weights : list Z) : value :=
  VTuple [VStr name; VStr "T"; strs namesOfConditions; ints weights].

Definition contrasts : value :=
  VList
    [ contrast "basic vs. conditions" [3; -1; -1; -1];
      contrast "all vs. condition1" [0; 1; 0; 0];
      contrast "all vs. condition2" [0; 0; 1; 0];
      contrast "all vs. condition3" [0; 0; 0; 1];
      VTuple [VStr "session1 vs session2"; VStr "T"; strs namesOfConditions;
              ints [1; 1; 1; 1]; ints [1; -1]] ].

(** Lines 287-302: the argument of the first [metaflow.connect]. *)
Definition metaflow_connections : list (string * string * list (src_port * string)) :=
  [ ("infosource", "datasource", [(Out "subject_id", "subject_id")]);
    ("datasource", "frameflow", [(Out "func", "inputnode.func")]);
    ("infosource", "frameflow",
       [(Out "subject_id", "inputnode.subject_id");
        (OutFn "subject_id" "subjectinfo", "inputnode.session_info")]);
    ("frameflow", "datasink",
       [(Out "preproc.bbregister.out_reg_file", "bbregister");
        (Out "volanalysis.contrastestimate.spm_mat_file", "vol_contrasts.@spm_mat");
        (Out "volanalysis.contrastestimate.spmT_images", "vol_contrasts.@T");
        (Out "volanalysis.contrastestimate.con_images", "vol_contrasts.@con")]) ].

(** Lines 313-324: the argument of the second [frameflow.connect]. *)
Definition surf_frameflow_connections : list (string * string * list (src_port * string)) :=
  [ ("inputnode", "surfanalysis", [(Out "session_info", "modelspec.subject_info");
                                   (Out "contrasts", "contrastestimate.contrasts")]);
    ("preproc", "surfanalysis",
       [(Out "realign.realignment_parameters", "modelspec.realignment_parameters");
        (Out "realign.realigned_files", "modelspec.functional_runs");
        (Out "art.outlier_files", "modelspec.outlier_files");
        (Out "dilate.out_file", "level1design.mask_image")]) ].

(** Lines 327-336: the argument of the second [metaflow.connect]. *)
Definition surf_metaflow_connections : list (string * string * list (src_port * string)) :=
  [ ("frameflow", "datasink",
       [(Out "preproc.bbregister.out_reg_file", "bbregister");
        (Out "surfanalysis.contrastestimate.spm_mat_file", "surf_contrasts.@spm_mat");
        (Out "surfanalysis.contrastestimate.spmT_images", "surf_contrasts.@T");
        (Out "surfanalysis.contrastestimate.con_images", "surf_contrasts.@con")]) ].

(** The definition part of the script, lines 39-336, in source order. *)
Definition script : list stmt :=
  preproc_nodes ++
  [ Connect "preproc" preproc_connections ] ++
  volanalysis_nodes ++
  [ Connect "volanalysis" volanalysis_connections ] ++
  frameflow_nodes ++
  [ Connect "frameflow" frameflow_connections ] ++
  io_nodes ++
  [ SetInputVia "frameflow" "inputnode" "contrasts" (Lit contrasts);
    NewWorkflow "metaflow" "metaflow";
    SetBaseDir "metaflow" (experiment_dir +:+ nameOfWorkingdir);
    Connect "metaflow" metaflow_connections;
    Clone "surfanalysis" "volanalysis" "surfanalysis";
    Connect "frameflow" surf_frameflow_connections;
    Connect "metaflow" surf_metaflow_connections ].

(** Line 345: [metaflow.run(plugin='MultiProc', plugin_args={'n_procs' : 2})]. *)
Definition plugin : string := "MultiProc".
Definition n_procs : nat := 2.

(** The state a program leaves, up to its first exception, when every port
    of a node is known to the registry. *)
Definition after (p : list stmt) : state :=
  match run permissive p initial with
  | Ok s | Raise _ s => s
  end.

(** ** Reading the script as data

    What the statements of the script declare, assign and ask of [connect],
    collected from the statements themselves. *)

(** Python's [float(z)] on the ints the script writes (all far below
    [2^53], where the conversion is exact). *)
Definition float_of_Z (z : Z) : float :=
  if z <? 0 then PrimFloat.opp (PrimFloat.of_uint63 (Uint63.of_Z (- z)))
  else PrimFloat.of_uint63 (Uint63.of_Z z).

(** The number a numeric value stands for in float arithmetic. *)
Definition as_float (v : value) : option float :=
  match v with
  | VInt z => Some (float_of_Z z)
  | VFloat f => Some f
  | _ => None
  end.

(** The entries of a list or a tuple. *)
Definition items (v : value) : list value :=
  match v with
  | VList l | VTuple l => l
  | _ => []
  end.

Definition str_of (v : value) : option string :=
  match v with VStr s => Some s | _ => None end.

(** The strings of a list of strings, as [fields=[...]] gives them. *)
Definition strings_of (v : value) : list string := omap str_of (items v).

(** The keys of a [dict]. *)
Definition keys (v : value) : gset string :=
  match v with
  | VDict d => dom d
  | _ => ∅
  end.

(** [d[k]] on a [dict]. *)
Definition item (v : value) (k : string) : option value :=
  match v with
  | VDict d => d !! k
  | _ => None
  end.

(** The onsets of a session, over all conditions, as floats. *)
Definition event_onsets (session : value) : list float :=
  omap as_float (default [] (items <$> attr session "onsets") ≫= items).

(** The durations of a session, over all conditions, as floats. *)
Definition event_durations (session : value) : list float :=
  omap as_float (default [] (items <$> attr session "durations") ≫= items).

(** [|x - y| > d] in binary64 arithmetic. *)
Definition apart (d x y : float) : bool :=
  PrimFloat.ltb d (PrimFloat.abs (PrimFloat.sub x y)).

(** Every element of the list is [apart] from each element after it,
    whichever of the two is subtracted from the other. *)
Fixpoint spaced (d : float) (l : list float) : bool :=
  match l with
  | [] => true
  | x :: l' => forallb (λ y, apart d x y && apart d y x) l' && spaced d l'
  end.

(** The Bunch one iteration of the loop of [subjectinfo] appends. *)
Definition run_info : value := default VNone (last (append_run [] 0)).

(** The names of a list of contrasts. *)
Definition contrast_names (cs : value) : list string :=
  omap (λ c, head (items c) ≫= str_of) (items cs).

(** The [%s] placeholders of a template. *)
Fixpoint placeholders (s : string) : nat :=
  match s with
  | String "%"%char (String "s"%char s') => S (placeholders s')
  | String _ s' => placeholders s'
  | EmptyString => 0%nat
  end.

(** ['a.b.c'.split('.')] *)
Fixpoint split_dots_go (cur s : string) : list string :=
  match s with
  | EmptyString => [String.rev cur]
  | String c s' =>
      if Ascii.eqb c "."%char then String.rev cur :: split_dots_go EmptyString s'
      else split_dots_go (String c cur) s'
  end.

Definition split_dots (s : string) : list string := split_dots_go EmptyString s.

(** The objects a program creates, as (variable, name). *)
Definition declared (p : list stmt) : list (string * string) :=
  c ← p;
  match c with
  | NewWorkflow x n | NewNode x _ n | Clone x _ n => [(x, n)]
  | _ => []
  end.

(** The variables a program binds to workflows. *)
Definition workflows (p : list stmt) : list string :=
  c ← p;
  match c with
  | NewWorkflow x _ | Clone x _ _ => [x]
  | _ => []
  end.

(** The interface a node was created with. *)
Definition interface_of (p : list stmt) (x : string) : option interface :=
  head (c ← p;
        match c with
        | NewNode x' i _ => if decide (x' = x) then [i] else []
        | _ => []
        end).

(** A keyword argument of the interface constructor, as a list of strings:
    [fields=[...]], [infields=[...]], [outfields=[...]]. *)
Definition fields (p : list stmt) (x key : string) : list string :=
  match interface_of p x with
  | Some i => strings_of (default VNone (assoc key (i_args i)))
  | None => []
  end.

(** The iterables a program declares, as (variable, field, values). *)
Definition iterables (p : list stmt) : list (string * string * list value) :=
  c ← p;
  match c with
  | SetIterables x f vs => [(x, f, vs)]
  | _ => []
  end.

(** The inputs a program assigns, as (node, field): [x.inputs.f = e] and
    [w.inputs.m.f = e]. *)
Definition assigned (p : list stmt) : list (string * string) :=
  c ← p;
  match c with
  | SetInput x f _ => [(x, f)]
  | SetInputVia _ m f _ => [(m, f)]
  | _ => []
  end.

(** One port pair of a [connect] call, with the objects it joins. *)
Record wire := Wire {
  w_src : string;
  w_sport : src_port;
  w_dst : string;
  w_dport : string }.

#[global] Instance wire_eq_dec : EqDecision wire.
Proof. solve_decision. Defined.

Definition wires_of (cs : list (string * string * list (src_port * string)))
    : list wire :=
  '(x, y, ps) ← cs; (λ '(sp, dp), Wire x sp y dp) <$> ps.

(** The port pairs a program asks workflow [w] to connect, over all its
    [connect] calls, in source order. *)
Definition wires (p : list stmt) (w : string) : list wire :=
  c ← p;
  match c with
  | Connect w' cs => if decide (w' = w) then wires_of cs else []
  | _ => []
  end.

(** Every port pair of the program, with the workflow it is asked of. *)
Definition all_wires (p : list stmt) : list (string * wire) :=
  c ← p;
  match c with
  | Connect w cs => (λ e, (w, e)) <$> wires_of cs
  | _ => []
  end.

(** [a] feeds [b] among the members of workflow [w]. *)
Definition member_feeds (p : list stmt) (w a b : string) : Prop :=
  ∃ e, e ∈ wires p w ∧ w_src e = a ∧ w_dst e = b.

(** The position of an object in a listing. *)
Definition position (order : list string) (x : string) : option nat :=
  fst <$> list_find (λ y, y = x) order.

(** The node and port a destination stands for: the port itself on a node,
    the last two components of the dotted name on a workflow. *)
Definition destination (p : list stmt) (e : wire) : string * string :=
  if decide (w_dst e ∈ workflows p) then
    match reverse (split_dots (w_dport e)) with
    | port :: node :: _ => (node, port)
    | _ => (w_dst e, w_dport e)
    end
  else (w_dst e, w_dport e).

(** The (node, port) pairs that receive a connection. *)
Definition connected_inputs (p : list stmt) : list (string * string) :=
  destination p <$> (all_wires p).*2.

(** What supplies the inputs of node [n]: the assignments and the
    connections, as the fields they set. *)
Definition supplied (p : list stmt) (n : string) : list string :=
  snd <$> filter (λ nf, nf.1 = n) (assigned p ++ connected_inputs p).

(** The output ports of [x] that the [connect] calls on [w] read. *)
Definition reads (p : list stmt) (w x : string) : list string :=
  omap (λ e, if decide (w_src e = x) then Some (port_name (w_sport e)) else None)
       (wires p w).

(** [s] with its prefix [old], if it has it, replaced by [new]. *)
Definition reprefix (old new s : string) : string :=
  if String.prefix old s
  then new +:+ String.substring (String.length old)
                 (String.length s - String.length old) s
  else s.

Definition reprefix_port (old new : string) (sp : src_port) : src_port :=
  match sp with
  | Out s => Out (reprefix old new s)
  | OutFn s f => OutFn (reprefix old new s) f
  end.

(** A port pair runs forward in a listing when its source is listed before
    its destination. *)
Definition forward (order : list string) (e : wire) : bool :=
  match position order (w_src e), position order (w_dst e) with
  | Some i, Some j => bool_decide (i < j)%nat
  | _, _ => false
  end.

(** The port pairs workflow [w] is asked to connect into its member [y]. *)
Definition into (p : list stmt) (w y : string) : list wire :=
  filter (λ e, w_dst e = y) (wires p w).

(** A port pair with another destination object. *)
Definition redirect (y : string) (e : wire) : wire :=
  Wire (w_src e) (w_sport e) y (w_dport e).

(** *** Names bound before they are used *)

Definition expr_scoped (bound : list string) (e : expr) : bool :=
  match e with
  | Lit _ => true
  | InputOf x _ => bool_decide (x ∈ bound)
  end.

(** [scoped bound p]: every statement of [p] names only variables that are
    in [bound] or that an earlier statement of [p] binds. *)
Fixpoint scoped (bound : list string) (p : list stmt) : bool :=
  match p with
  | [] => true
  | c :: p' =>
    match c with
    | NewWorkflow x _ | NewNode x _ _ => scoped (x :: bound) p'
    | SetInput x _ e | SetInputVia x _ _ e =>
        bool_decide (x ∈ bound) && expr_scoped bound e && scoped bound p'
    | SetIterables x _ _ | SetBaseDir x _ =>
        bool_decide (x ∈ bound) && scoped bound p'
    | Connect w cs =>
        bool_decide (w ∈ bound) &&
        forallb (λ c, bool_decide (c.1.1 ∈ bound) && bool_decide (c.1.2 ∈ bound)) cs &&
        scoped bound p'
    | Clone x w _ => bool_decide (w ∈ bound) && scoped (x :: bound) p'
    end
  end.

(** The variables of [bound] are bound in the state. *)
Definition binds (s : state) (bound : list string) : Prop :=
  Forall (λ x, is_Some (env s !! x)) bound.

(** *** The engine state the statements leave *)

(** The script without the repeated triple of lines 98-100: its
    [preproc.connect] is asked for the first seven triples only. *)
Definition repaired : list stmt :=
  take 27 script ++
  [ Connect "preproc" (take 7 preproc_connections) ] ++
  drop 28 script.

(** The state a statement leaves, raised or not. *)
Definition pass (reg : registry) (c : stmt) (s : state) : state :=
  match exec reg c s with
  | Ok s' | Raise _ s' => s'
  end.

(** The state the statements leave when they are run one by one, each
    after what the one before it left, as [run_each] does. *)
Definition leave (reg : registry) (p : list stmt) (s : state) : state :=
  foldl (λ s c, pass reg c s) s p.




(** A workflow of the store as a graph: its members, and its recorded
    connections between them. *)
Definition graph_of (s : state) (w : string) : Exec.xgraph (I := oid) :=
  Exec.XGraph (members_of (heap s) (var s w))
    ((λ e, Exec.XEdge (e_src e) (port_name (e_sport e)) (e_dst e) (e_dport e))
       <$> edges s w).

(** Descriptors under which every port exists and nothing is required. *)
Definition any_port : Exec.descriptors (I := oid) :=
  Exec.Descriptors (λ _ _, true) (λ _ _, true) (λ _, []) (λ _ _, true).
(** ** Properties of subjectinfo *)

(** C9: [subjectinfo] never looks at its argument: any two subject ids give
    the same result, a list of exactly two equal Bunch objects whose
    conditions, onsets and parametric modulators are the fixed tables of
    the function and whose durations are one [[2]] per condition. *)
Theorem subjectinfo_ignores_subject_id :
  ∀ s1 s2 : value,
    subjectinfo s1 = subjectinfo s2 ∧
    ∃ b : value,
      subjectinfo s1 = VList [b; b] ∧
      attr b "conditions" =
        Some (strs ["basic"; "condition1"; "condition2"; "condition3"]) ∧
      attr b "onsets" = Some onsetTimes ∧
      attr b "durations" = Some (VList [ints [2]; ints [2]; ints [2]; ints [2]]) ∧
      attr b "pmod" = Some para_modu ∧
      attr b "amplitudes" = Some VNone ∧
      attr b "tmod" = Some VNone ∧
      attr b "regressor_names" = Some VNone ∧
      attr b "regressors" = Some VNone.
Proof.
  intros s1 s2. split; [reflexivity|].
  eexists. split; [reflexivity|].
  repeat split; reflexivity.
Qed.

(** ** connect: a destination port receives at most one connection *)
Section connect_facts.
Context (reg : registry) (h : gmap oid obj).
Implicit Types (es new : list edge) (e : edge).

Lemma connected_elem es d p :
  Engine.connected es d p ↔ (d, p) ∈ (λ e, (e_dst e, e_dport e)) <$> es.
Proof.
  unfold Engine.connected. rewrite Exists_exists, list_elem_of_fmap.
  split.
  - intros (e & He & <- & <-). eauto.
  - intros (e & [= -> ->] & He). eauto.
Qed.



Lemma check_pair_none es e :
  Engine.check_pair reg h es e = None →
  has_output reg h (e_src e) (port_name (e_sport e)) = true ∧
  has_input reg h (e_dst e) (e_dport e) = true ∧
  compatible reg h (e_src e) (port_name (e_sport e)) (e_dst e) (e_dport e) = true ∧
  ¬ Engine.connected es (e_dst e) (e_dport e).
Proof.
  unfold Engine.check_pair. intros Hn.
  repeat case_match; try discriminate.
  repeat match goal with
         | H : negb _ = false |- _ => apply negb_false_iff in H
         | H : _ && _ = true |- _ => apply andb_true_iff in H as [? ?]
         end.
  done.
Qed.



Lemma validate_accepts es new es' :
  Engine.validate reg h es new = inr es' →
  es' = es ++ new ∧
  (Engine.single_producer es → Engine.single_producer es').
Proof.
  revert es. induction new as [|x new IH]; intros es Hv; simpl in Hv.
  - injection Hv as <-. by rewrite app_nil_r.
  - destruct (Engine.check_pair reg h es x) eqn:Hx; [done|].
    apply IH in Hv as [-> Hs]. split; [by rewrite <- app_assoc|].
    intros Hes. apply Hs. apply check_pair_none in Hx as (_ & _ & _ & Hx).
    unfold Engine.single_producer in *. rewrite fmap_app. simpl.
    apply NoDup_app. split_and!; [done| |apply NoDup_singleton].
    intros dp Hdp ->%list_elem_of_singleton.
    by apply Hx, connected_elem.
Qed.


End connect_facts.



Lemma connect_records reg h w cs h' :
  Engine.connect reg h w cs = Ok h' →
  (∃ name bd ms, h' !! w = Some (OWorkflow name bd ms (edges_of h' w))) ∧
  edges_of h' w = edges_of h w ++ Engine.pairs_of cs ∧
  (Engine.single_producer (edges_of h w) →
   Engine.single_producer (edges_of h' w)) ∧
  (∀ o, o ≠ w → h' !! o = h !! o).
Proof.
  unfold Engine.connect, edges_of.
  destruct (h !! w) as [[|name bd ms es]|] eqn:Hw; try done.
  destruct (Engine.validate reg h es _) as [|es'] eqn:Hv; [done|].
  intros [= <-]. rewrite lookup_insert_eq.
  apply validate_accepts in Hv as [-> Hs]. split_and!; [eauto|done|done|].
  intros o Ho. by rewrite lookup_insert_ne.
Qed.



Lemma exec_connect_ok reg w cs s s' :
  exec reg (Connect w cs) s = Ok s' →
  ∃ o cs', env s !! w = Some o ∧ resolve (env s) cs = inr cs' ∧
           env s' = env s ∧ Engine.connect reg (heap s) o cs' = Ok (heap s').
Proof.
  simpl. destruct (env s !! w) as [o|]; [|by destruct (resolve _ _)].
  destruct (resolve _ _) as [|cs']; [done|].
  destruct (Engine.connect _ _ _ _) eqn:Hc; [|done].
  intros [= <-]. eauto 10.
Qed.







(** ** connect: fan-out *)



Lemma frameflow_members_run reg :
  run reg (preproc_nodes ++ volanalysis_nodes ++ frameflow_nodes) initial
  = Ok (after (preproc_nodes ++ volanalysis_nodes ++ frameflow_nodes)).
Proof. vm_compute. reflexivity. Qed.



(** ** Input assignment copies a value *)

Lemma set_input_spec h o f v h' :
  set_input h o f v = Some h' →
  (∀ o', o' ≠ o → h' !! o' = h !! o') ∧
  input_of h' o f = v ∧
  (∀ w, edges_of h' w = edges_of h w) ∧
  ∃ n i ins its, h' !! o = Some (ONode n i ins its).
Proof.
  unfold set_input. destruct (h !! o) as [[n i ins its|]|] eqn:Ho; try done.
  intros [= <-]. split_and!.
  - intros o' Hne. by rewrite lookup_insert_ne.
  - unfold input_of. by rewrite lookup_insert_eq, lookup_insert_eq.
  - intros w. unfold edges_of. destruct (decide (w = o)) as [->|Hne].
    + by rewrite lookup_insert_eq, Ho.
    + by rewrite lookup_insert_ne.
  - rewrite lookup_insert_eq. eauto.
Qed.

(** An assignment to an input records no connection in any workflow. *)
Lemma set_input_records_no_connection reg x f e s s' :
  exec reg (SetInput x f e) s = Ok s' →
  ∀ w, edges_of (heap s') w = edges_of (heap s) w.
Proof.
  simpl. destruct (eval e s) as [|v]; [done|].
  destruct (env s !! x) as [o|]; [|done].
  destruct (set_input (heap s) o f v) as [h|] eqn:Hs; [|done].
  intros [= <-]. simpl. by apply set_input_spec in Hs as (_ & _ & ? & _).
Qed.

(** Any number of later assignments to [x.inputs.f] touch no other object. *)
Lemma assign_many reg x f (vs : list value) s o :
  env s !! x = Some o →
  (∃ n i ins its, heap s !! o = Some (ONode n i ins its)) →
  ∃ s', run reg ((λ v, SetInput x f (Lit v)) <$> vs) s = Ok s' ∧
        env s' = env s ∧
        (∀ o', o' ≠ o → heap s' !! o' = heap s !! o') ∧
        input_of (heap s') o f = default (input_of (heap s) o f) (last vs).
Proof.
  revert s. induction vs as [|v vs IH]; intros s Hx Hn.
  - exists s. done.
  - rewrite fmap_cons. cbn [run exec eval]. rewrite Hx.
    destruct Hn as (n & i & ins & its & Ho).
    unfold set_input at 1. rewrite Ho.
    set (s1 := State _ _).
    destruct (IH s1) as (s' & Hrun & Henv & Hframe & Hin).
    { done. }
    { simpl. rewrite lookup_insert_eq. eauto. }
    exists s'. split_and!; [done|done| |].
    + intros o' Hne. rewrite Hframe by done. simpl. by rewrite lookup_insert_ne.
    + rewrite Hin. unfold input_of at 1. simpl.
      rewrite lookup_insert_eq, lookup_insert_eq. simpl.
      rewrite last_cons. by destruct (last vs).
Qed.

(** C10: line 129 copies the float 8.0 into [level1design]'s inputs when
    it runs.  After the node definitions of the volume analysis both inputs
    hold 8.0 and no workflow has gained a connection (an input assignment
    never records one, and no [connect] of the script names the port);
    whatever is later assigned to [modelspec.inputs.time_repetition],
    [level1design.inputs.interscan_interval] stays 8.0; and the value
    [level1design] runs with, in [volanalysis] as in its clone, is that
    parameter, whatever the producers of the workflow yield. *)
Theorem interscan_interval_is_a_copy :
  (∀ reg, run reg volanalysis_nodes initial = Ok (after volanalysis_nodes)) ∧
  input (after volanalysis_nodes) "level1design" "interscan_interval"
    = VFloat 8.0 ∧
  input (after volanalysis_nodes) "modelspec" "time_repetition" = VFloat 8.0 ∧
  (∀ reg x f e s s' w,
     exec reg (SetInput x f e) s = Ok s' →
     edges_of (heap s') w = edges_of (heap s) w) ∧
  Forall (λ dp, dp.2 ≠ "interscan_interval" ∧
                dp.2 ≠ "level1design.interscan_interval")
    (destinations script) ∧
  (∀ reg (vs : list value),
     ∃ s',
       run reg ((λ v, SetInput "modelspec" "time_repetition" (Lit v)) <$> vs)
         (after volanalysis_nodes) = Ok s' ∧
       input s' "modelspec" "time_repetition" = default (VFloat 8.0) (last vs) ∧
       input s' "level1design" "interscan_interval" = VFloat 8.0) ∧
  (∀ reg s produced,
     exec reg (Connect "volanalysis" volanalysis_connections)
       (after volanalysis_nodes) = Ok s →
     Engine.resolved_input (heap s) (edges s "volanalysis") produced
       (var s "level1design") "interscan_interval" = VFloat 8.0) ∧
  (∀ w produced,
     w ∈ ["volanalysis"; "surfanalysis"] →
     let s := (run_each permissive script 0 initial).1 in
     ∃ n,
       member_named (heap s) (var s w) "level1design" = Some n ∧
       Engine.resolved_input (heap s) (edges s w) produced n
         "interscan_interval" = VFloat 8.0).
Proof.
  split_and!.
  - intros reg. vm_compute. reflexivity.
  - vm_compute. reflexivity.
  - vm_compute. reflexivity.
  - intros reg x f e s s' w H. by eapply set_input_records_no_connection.
  - compute_done.
  - intros reg vs.
    destruct (assign_many reg "modelspec" "time_repetition" vs
                (after volanalysis_nodes) (var (after volanalysis_nodes) "modelspec"))
      as (s' & Hrun & Henv & Hframe & Hin).
    { vm_compute. reflexivity. }
    { vm_compute. eauto. }
    exists s'. split_and!; [done| |].
    + unfold input, var. rewrite Henv. exact Hin.
    + unfold input, var, input_of. rewrite Henv, Hframe by (vm_compute; congruence).
      vm_compute. reflexivity.
  - intros reg s produced (o & cs' & Ho & Hr & Henv & Hc)%exec_connect_ok.
    vm_compute in Ho. injection Ho as <-.
    vm_compute in Hr. injection Hr as <-.
    apply connect_records in Hc as (_ & He & _ & Hframe).
    unfold edges, var. rewrite Henv.
    change (default 1%positive (env (after volanalysis_nodes) !! "volanalysis"))
      with 1%positive.
    change (default 1%positive (env (after volanalysis_nodes) !! "level1design"))
      with 3%positive.
    rewrite He. unfold Engine.resolved_input, input_of.
    rewrite Hframe by done. vm_compute. reflexivity.
  - intros w produced Hw s.
    apply elem_of_cons in Hw as [->|Hw];
      [|apply list_elem_of_singleton in Hw as ->];
      (eexists; split; [vm_compute; reflexivity|]; vm_compute; reflexivity).
Qed.

(** ** Graph construction *)
Section build_facts.
Context {I : Type} `{Countable I}.
Implicit Types (g : @Exec.xgraph I) (n p : I) (rem order : list I).

Lemma preds_feeds g p n : p ∈ Exec.preds g n ↔ Exec.feeds g p n.
Proof.
  unfold Exec.preds, Exec.feeds. rewrite list_elem_of_fmap. split.
  - intros (e & -> & [He Hin]%list_elem_of_filter). eauto.
  - intros (e & Hin & <- & <-). exists e. split; [done|].
    by apply list_elem_of_filter.
Qed.

Lemma tc_last {X} (R : relation X) x z : tc R x z → ∃ y, rtc R x y ∧ R y z.
Proof.
  induction 1 as [x z HR|x y' z HR _ (y & Hxy & Hyz)].
  - exists x. split; [apply rtc_refl|done].
  - exists y. split; [by eapply rtc_l|done].
Qed.

(** A node on a cycle is fed by a node on a cycle. *)
Lemma cycle_pred g n :
  tc (Exec.feeds g) n n → ∃ p, Exec.feeds g p n ∧ tc (Exec.feeds g) p p.
Proof.
  intros (p & Hnp & Hpn)%tc_last. exists p. split; [done|].
  eapply tc_rtc_r; [by apply tc_once|done].
Qed.

(** No pass of the sort moves a node that lies on a cycle. *)
Lemma kahn_keeps_cycles fuel g rem order :
  (∀ x, tc (Exec.feeds g) x x → x ∈ rem) →
  ∀ x, tc (Exec.feeds g) x x → x ∈ (Exec.kahn fuel g rem order).2.
Proof.
  revert rem order. induction fuel as [|fuel IH]; intros rem order Hrem x Hx.
  - by apply Hrem.
  - simpl. destruct (filter (Exec.resolved g rem) rem) as [|r ready] eqn:Hf.
    + by apply Hrem.
    + apply IH; [|done]. intros y Hy. apply list_elem_of_filter.
      split; [|by apply Hrem].
      rewrite <- Hf. intros [Hres _]%list_elem_of_filter.
      destruct (cycle_pred g y Hy) as (p & Hpy & Hp).
      unfold Exec.resolved in Hres. rewrite Forall_forall in Hres.
      apply (Hres p); [by apply preds_feeds|by apply Hrem].
Qed.

Lemma ports_exist_nodes d g a b :
  Exec.ports_exist d g = true → Exec.feeds g a b →
  a ∈ Exec.x_nodes g ∧ b ∈ Exec.x_nodes g.
Proof.
  unfold Exec.ports_exist. rewrite forallb_forall.
  intros Hall (e & He & <- & <-). apply list_elem_of_In, Hall in He.
  repeat (apply andb_true_iff in He as [He ?]).
  split; by eapply bool_decide_eq_true_1.
Qed.

Lemma cycle_is_CycleError d g :
  Exec.has_cycle g → Exec.ports_exist d g = true →
  Exec.build d g = inl CycleError.
Proof.
  intros [x Hx] Hports. unfold Exec.build. rewrite Hports. simpl.
  assert (x ∈ (Exec.toposort g).2) as Hin.
  { apply kahn_keeps_cycles; [|done]. intros y Hy.
    destruct (cycle_pred g y Hy) as (p & Hpy & _).
    by eapply ports_exist_nodes. }
  destruct (Exec.toposort g) as [order [|r rem]]; [|done].
  by apply not_elem_of_nil in Hin.
Qed.

Lemma cycle_fails_build d g :
  Exec.has_cycle g →
  ∃ e, Exec.build d g = inl e ∧
       (Exec.ports_exist d g = true → e = CycleError).
Proof.
  intros Hc. destruct (Exec.ports_exist d g) eqn:Hp.
  - exists CycleError. split; [by apply cycle_is_CycleError|done].
  - exists (ConfigurationError UnknownPort). unfold Exec.build. rewrite Hp.
    split; done.
Qed.

(** *** The order of an accepted graph *)

Lemma kahn_sorting fuel g rem order :
  (∀ a b, Exec.feeds g a b → a ∈ Exec.x_nodes g) →
  sorting g rem order →
  sorting g (Exec.kahn fuel g rem order).2 (Exec.kahn fuel g rem order).1.
Proof.
  intros Hclosed. revert rem order.
  induction fuel as [|fuel IH]; intros rem order Hs; [done|].
  simpl. destruct (filter (Exec.resolved g rem) rem) as [|r ready] eqn:Hf; [done|].
  apply IH. destruct Hs as [Htopo Hcover Hrem]. rewrite <- Hf. split.
  - intros i n Hi p Hp. destruct (decide (i < length order)%nat) as [Hlt|Hge].
    + rewrite lookup_app_l in Hi by done.
      destruct (Htopo i n Hi p Hp) as (j & Hj & Hjp).
      exists j. split; [done|]. rewrite lookup_app_l; [done|lia].
    + rewrite lookup_app_r in Hi by lia.
      apply list_elem_of_lookup_2, list_elem_of_filter in Hi as [Hres _].
      unfold Exec.resolved in Hres. rewrite Forall_forall in Hres.
      specialize (Hres p Hp).
      destruct (Hcover p) as [Hpo|Hpr];
        [apply (Hclosed p n); by apply preds_feeds| |done].
      apply list_elem_of_lookup_1 in Hpo as [j Hj].
      exists j. split.
      * apply lookup_lt_Some in Hj. lia.
      * by rewrite lookup_app_l by (by eapply lookup_lt_Some).
  - intros n Hn. rewrite elem_of_app, !list_elem_of_filter.
    destruct (Hcover n Hn) as [?|Hr]; [by auto|].
    destruct (decide (Exec.resolved g rem n)); [by auto|].
    right. split; [|done]. by intros [? _].
  - intros n [Hn Hr]%list_elem_of_filter [Ho|Ho]%elem_of_app.
    + by apply (Hrem n).
    + done.
Qed.

(** The order the builder returns lists every node after its dependencies. *)
Lemma build_order d g order :
  Exec.build d g = inr order →
  Exec.topological g order ∧ ∀ n, n ∈ Exec.x_nodes g → n ∈ order.
Proof.
  unfold Exec.build. destruct (Exec.ports_exist d g) eqn:Hp; [|done]. simpl.
  pose proof (kahn_sorting (length (Exec.x_nodes g)) g (Exec.x_nodes g) []) as Hs.
  fold (Exec.toposort g) in Hs.
  destruct (Exec.toposort g) as [o [|r rem]] eqn:Ht; [|done].
  destruct (Exec.inputs_satisfied d g); [|done]. intros [= <-].
  destruct Hs as [Htopo Hcover _].
  - intros a b Hab. by destruct (ports_exist_nodes d g a b Hp Hab).
  - split; [|by auto|intros n _; apply not_elem_of_nil].
    intros i n Hi. by rewrite lookup_nil in Hi.
  - split; [done|]. intros n Hn. destruct (Hcover n Hn) as [?|Hr]; [done|].
    by apply elem_of_nil in Hr.
Qed.

(** Induction along a topological order. *)
Lemma topological_ind g order (P : I → Prop) :
  Exec.topological g order →
  (∀ n, n ∈ order → (∀ p, p ∈ Exec.preds g n → p ∈ order ∧ P p) → P n) →
  ∀ n, n ∈ order → P n.
Proof.
  intros Htopo Hstep.
  assert (∀ i j n, (j < i)%nat → order !! j = Some n → P n) as Hall.
  { induction i as [|i IH]; intros j n Hj Hn; [lia|].
    apply Hstep; [by eapply list_elem_of_lookup_2|].
    intros p Hp. destruct (Htopo j n Hn p Hp) as (k & Hk & Hkp).
    split; [by eapply list_elem_of_lookup_2|].
    apply (IH k); [lia|done]. }
  intros n [j Hj]%list_elem_of_lookup_1. apply (Hall (S j) j); [lia|done].
Qed.

End build_facts.

(** ** The sessions [subjectinfo] describes, and the contrasts *)

Lemma append_run_spec out r : append_run out r = out ++ [run_info].
Proof. done. Qed.

Lemma loop_spec out a k :
  foldl append_run out (seq a k) = out ++ replicate k run_info.
Proof.
  revert out a. induction k as [|k IH]; intros out a; simpl.
  - by rewrite app_nil_r.
  - rewrite IH, append_run_spec, <- app_assoc. done.
Qed.

Lemma subjectinfo_items subject_id :
  items (subjectinfo subject_id) = [run_info; run_info].
Proof. done. Qed.

(** X1: the loop of [subjectinfo] only appends.  Started from any output
    list and run for any number of iterations [k], it leaves the entries
    the list had in place and adds [k] times the same Bunch; [subjectinfo]
    returns one such entry for each of the [sessions]. *)
Theorem loop_appends_one_entry_per_run :
  (∀ out a k, foldl append_run out (seq a k) = out ++ replicate k run_info) ∧
  (∀ out a k i, (i < length out)%nat →
     foldl append_run out (seq a k) !! i = out !! i) ∧
  (∀ out a k, length (foldl append_run out (seq a k)) = (length out + k)%nat) ∧
  ∀ subject_id,
    items (subjectinfo subject_id) = replicate (length sessions) run_info.
Proof.
  split_and!.
  - apply loop_spec.
  - intros out a k i Hi. by rewrite loop_spec, lookup_app_l.
  - intros out a k. by rewrite loop_spec, length_app, length_replicate.
  - done.
Qed.

(** X2: in every session [subjectinfo] returns, for whatever subject, the
    conditions, onsets, durations and parametric modulators line up: one
    entry of each per condition, and every modulator of a condition gives
    each of its parameters one value per onset of that condition. *)
Theorem sessions_are_consistent subject_id b :
  b ∈ items (subjectinfo subject_id) →
  ∃ conds onsets durs pmod,
    attr b "conditions" = Some (strs conds) ∧
    attr b "onsets" = Some (VList onsets) ∧
    attr b "durations" = Some (VList durs) ∧
    attr b "pmod" = Some (VList pmod) ∧
    NoDup conds ∧
    length onsets = length conds ∧
    length durs = length conds ∧
    length pmod = length conds ∧
    Forall (λ o, Forall (λ x, is_Some (as_float x)) (items o)) onsets ∧
    Forall (λ d, d = ints [2]) durs ∧
    ∀ i o m, onsets !! i = Some o → pmod !! i = Some m →
      m = VNone ∨
      ∃ names polys params,
        attr m "name" = Some (strs names) ∧
        attr m "poly" = Some (VList polys) ∧
        attr m "param" = Some (VList params) ∧
        length polys = length names ∧
        length params = length names ∧
        Forall (λ p, length (items p) = length (items o)) params.
Proof.
  rewrite subjectinfo_items. intros Hb.
  assert (b = run_info) as ->.
  { repeat (apply elem_of_cons in Hb as [?|Hb]; [done|]).
    by apply elem_of_nil in Hb. }
  exists namesOfConditions, (items onsetTimes),
    ((λ _ : string, ints [2]) <$> namesOfConditions), (items para_modu).
  split_and!; try done.
  - compute_done.
  - repeat (constructor; [repeat (constructor; [by eexists|])|]); constructor.
  - repeat constructor.
  - intros i o m Ho Hm.
    destruct i as [|[|[|[|i]]]]; simpl in Ho, Hm; simplify_eq; [by left|..];
      right; eexists ["target2"; "target3"], _, _;
      (split_and!; [reflexivity..|repeat constructor]).
Qed.

Lemma sessions_are_consistent_witness :
  ∃ conds onsets durs pmod,
    attr run_info "conditions" = Some (strs conds) ∧
    attr run_info "onsets" = Some (VList onsets) ∧
    attr run_info "durations" = Some (VList durs) ∧
    attr run_info "pmod" = Some (VList pmod) ∧
    NoDup conds ∧
    length onsets = length conds ∧
    length durs = length conds ∧
    length pmod = length conds ∧
    Forall (λ o, Forall (λ x, is_Some (as_float x)) (items o)) onsets ∧
    Forall (λ d, d = ints [2]) durs ∧
    ∀ i o m, onsets !! i = Some o → pmod !! i = Some m →
      m = VNone ∨
      ∃ names polys params,
        attr m "name" = Some (strs names) ∧
        attr m "poly" = Some (VList polys) ∧
        attr m "param" = Some (VList params) ∧
        length polys = length names ∧
        length params = length names ∧
        Forall (λ p, length (items p) = length (items o)) params.
Proof.
  apply (sessions_are_consistent (VStr "subject1") run_info).
  rewrite subjectinfo_items. apply list_elem_of_here.
Defined.

Lemma spaced_ordered d l :
  spaced d l = true →
  ∀ i j x y, (i < j)%nat → l !! i = Some x → l !! j = Some y →
    apart d x y = true ∧ apart d y x = true.
Proof.
  induction l as [|a l IH]; intros Hs i j x y Hij Hx Hy.
  - by rewrite lookup_nil in Hx.
  - simpl in Hs. apply andb_true_iff in Hs as [Ha Hl].
    destruct j as [|j]; [lia|]. destruct i as [|i]; simplify_eq/=.
    + rewrite forallb_forall in Ha.
      apply list_elem_of_lookup_2, list_elem_of_In, Ha in Hy.
      by apply andb_true_iff in Hy.
    + apply (IH Hl i j); [lia|done..].
Qed.

Lemma spaced_sound d l :
  spaced d l = true →
  ∀ i j x y, i ≠ j → l !! i = Some x → l !! j = Some y → apart d x y = true.
Proof.
  intros Hs i j x y Hij Hx Hy.
  destruct (decide (i < j)%nat).
  - by destruct (spaced_ordered d l Hs i j x y).
  - by destruct (spaced_ordered d l Hs j i y x); [lia|..].
Qed.

(** X3: no two events of a session overlap.  Every event [subjectinfo]
    describes lasts 2 seconds, and the onsets of any two events of a
    session, of the same condition or not, are more than 2 seconds apart
    in binary64 arithmetic. *)
Theorem events_do_not_overlap subject_id b :
  b ∈ items (subjectinfo subject_id) →
  length (event_onsets b) = length (items onsetTimes ≫= items) ∧
  Forall (λ d, d = 2%float) (event_durations b) ∧
  ∀ i j x y, i ≠ j →
    event_onsets b !! i = Some x → event_onsets b !! j = Some y →
    apart 2 x y = true.
Proof.
  rewrite subjectinfo_items. intros Hb.
  assert (b = run_info) as ->.
  { repeat (apply elem_of_cons in Hb as [?|Hb]; [done|]).
    by apply elem_of_nil in Hb. }
  split_and!.
  - by vm_compute.
  - vm_compute. repeat constructor.
  - apply spaced_sound. by vm_compute.
Qed.

Lemma events_do_not_overlap_witness :
  length (event_onsets run_info) = length (items onsetTimes ≫= items) ∧
  Forall (λ d, d = 2%float) (event_durations run_info) ∧
  ∀ i j x y, i ≠ j →
    event_onsets run_info !! i = Some x → event_onsets run_info !! j = Some y →
    apart 2 x y = true.
Proof.
  apply (events_do_not_overlap (VStr "subject2") run_info).
  rewrite subjectinfo_items. apply list_elem_of_here.
Defined.

(** X4: the contrasts fit the design.  The five contrasts have distinct
    names; each is a T contrast over the four conditions that every session
    returned by [subjectinfo] declares, with one weight per condition; the
    only further entry a contrast has is a list of one weight per session. *)
Theorem contrasts_fit_the_design :
  NoDup (contrast_names contrasts) ∧
  length (contrast_names contrasts) = length (items contrasts) ∧
  (∀ c, c ∈ items contrasts →
     ∃ name ws rest,
       c = VTuple (VStr name :: VStr "T" :: strs namesOfConditions ::
                   ints ws :: rest) ∧
       length ws = length namesOfConditions ∧
       (rest = [] ∨ ∃ sw, rest = [ints sw] ∧ length sw = length sessions)) ∧
  ∀ subject_id b, b ∈ items (subjectinfo subject_id) →
    attr b "conditions" = Some (strs namesOfConditions).
Proof.
  split_and!.
  - compute_done.
  - done.
  - intros c Hc. unfold contrasts, items in Hc.
    repeat (apply elem_of_cons in Hc as [->|Hc];
      [eexists _, _, _; split; [reflexivity|]; split; [done|];
       first [by left|right; eexists; split; [reflexivity|done]]|]).
    by apply elem_of_nil in Hc.
  - intros subject_id b. rewrite subjectinfo_items. intros Hb.
    repeat (apply elem_of_cons in Hb as [->|Hb]; [done|]).
    by apply elem_of_nil in Hb.
Qed.

(** ** The nodes and their static inputs *)

(** X5: the slice timing parameters agree with each other.  After the node
    definitions, [slice_order] lists each of the [num_slices] slices once,
    from 1 up, [ref_slice] is one of them, [time_acquisition] is
    [TR - TR / num_slices] in binary64 arithmetic and lies strictly between
    0 and the [time_repetition] of the node, which is also the acquisition
    time the sparse model is given. *)
Theorem slice_timing_parameters_agree :
  ∃ n tr ta order ref,
    input (after (preproc_nodes ++ volanalysis_nodes)) "sliceTiming"
      "num_slices" = VInt n ∧
    input (after (preproc_nodes ++ volanalysis_nodes)) "sliceTiming"
      "time_repetition" = VFloat tr ∧
    input (after (preproc_nodes ++ volanalysis_nodes)) "sliceTiming"
      "time_acquisition" = VFloat ta ∧
    input (after (preproc_nodes ++ volanalysis_nodes)) "sliceTiming"
      "slice_order" = ints order ∧
    input (after (preproc_nodes ++ volanalysis_nodes)) "sliceTiming"
      "ref_slice" = VInt ref ∧
    input (after (preproc_nodes ++ volanalysis_nodes)) "modelspec"
      "time_acquisition" = VFloat tr ∧
    ta = (tr - tr / float_of_Z n)%float ∧
    PrimFloat.ltb 0 ta = true ∧
    PrimFloat.ltb ta tr = true ∧
    length order = Z.to_nat n ∧
    NoDup order ∧
    (∀ k, k ∈ order ↔ 1 ≤ k ≤ n) ∧
    head order = Some 1 ∧
    ref ∈ order.
Proof.
  exists 28, 2.0%float, (2.0 - 2.0 / 28)%float, (seqZ 1 28), 1.
  split_and!; try by vm_compute.
  - apply NoDup_seqZ.
  - intros k. rewrite elem_of_seqZ. lia.
  - apply elem_of_seqZ. lia.
Qed.


(** X7: every input has a single source.  No input of a node is assigned
    twice by the script, and no input that is assigned is also the
    destination of a connection. *)
Theorem inputs_have_a_single_source :
  NoDup (assigned script) ∧
  ∀ n f, (n, f) ∈ assigned script → (n, f) ∉ connected_inputs script.
Proof.
  split; [compute_done|].
  assert (Forall (λ nf, nf ∉ connected_inputs script) (assigned script)) as Hall
    by compute_done.
  intros n f. rewrite Forall_forall in Hall. apply Hall.
Qed.

(** Two lists hold the same elements. *)
Lemma same_elements {X} (l k : list X) :
  Forall (λ x, x ∈ k) l → Forall (λ x, x ∈ l) k → ∀ x, x ∈ l ↔ x ∈ k.
Proof. rewrite !Forall_forall. intros Hl Hk x. split; [apply Hl|apply Hk]. Qed.

(** X8: the fields of the identity nodes are all supplied and all used.
    Each of the four fields [inputnode] is created with is supplied exactly
    once, by a connection of [metaflow] or by the assignment of
    [contrasts], and read by a connection of [frameflow]; nothing else is
    supplied or read.  Likewise the one field of [infosource] is the field
    its iterable ranges over, with distinct values, and the only port read
    from it. *)
Theorem identity_fields_are_supplied_and_used :
  NoDup (fields script "inputnode" "fields") ∧
  supplied script "inputnode" ≡ₚ fields script "inputnode" "fields" ∧
  (∀ f, f ∈ reads script "frameflow" "inputnode" ↔
        f ∈ fields script "inputnode" "fields") ∧
  (∀ x f vs, (x, f, vs) ∈ iterables script →
     x = "infosource" ∧ fields script x "fields" = [f] ∧
     vs = VStr <$> subjects ∧ NoDup vs) ∧
  (∀ f, f ∈ reads script "metaflow" "infosource" ↔
        f ∈ fields script "infosource" "fields") ∧
  supplied script "infosource" = [].
Proof.
  split_and!.
  - compute_done.
  - change (supplied script "inputnode") with
      ("contrasts" :: ["func"; "subject_id"; "session_info"]).
    change (fields script "inputnode" "fields") with
      (["func"; "subject_id"; "session_info"] ++ ["contrasts"]).
    apply Permutation_cons_append.
  - apply same_elements; compute_done.
  - intros x f vs Hin.
    change (iterables script) with [("infosource", "subject_id", VStr <$> subjects)] in Hin.
    apply list_elem_of_singleton in Hin. simplify_eq.
    split_and!; [done..|]. apply NoDup_fmap_2; [by intros ?? [=]|compute_done].
  - apply same_elements; compute_done.
  - done.
Qed.

(** X9: the data grabber is used as it is declared.  Its one input field
    is the only input that is connected; [func] is the only output read,
    [struct] is declared and never read; [template_args] has an entry for
    each output field and for nothing else, and every argument list in it
    has as many arguments as the template has [%s] placeholders. *)
Theorem datagrabber_is_used_as_declared :
  filter (λ f, ("datasource", f) ∈ connected_inputs script)
         (supplied script "datasource") =
    fields script "datasource" "infields" ∧
  reads script "metaflow" "datasource" = ["func"] ∧
  "func" ∈ fields script "datasource" "outfields" ∧
  "struct" ∈ fields script "datasource" "outfields" ∧
  (∀ w, "struct" ∉ reads script w "datasource") ∧
  keys (input (after io_nodes) "datasource" "template_args") =
    list_to_set (fields script "datasource" "outfields") ∧
  ∃ template,
    input (after io_nodes) "datasource" "template" = VStr template ∧
    placeholders template = 2%nat ∧
    ∀ k v args,
      item (input (after io_nodes) "datasource" "template_args") k = Some v →
      args ∈ items v → length (items args) = placeholders template.
Proof.
  split_and!; try by vm_compute.
  - compute_done.
  - compute_done.
  - intros w Hin. unfold reads in Hin. apply list_elem_of_omap in Hin as (e & He & Hsome).
    destruct (decide (w_src e = "datasource")) as [Hsrc|]; [|done].
    simplify_eq. unfold wires in He.
    apply list_elem_of_bind in He as (c & He & Hc).
    assert (Forall (λ c, match c with
                         | Connect _ cs =>
                             Forall (λ e, w_src e = "datasource" →
                                          port_name (w_sport e) ≠ "struct")
                                    (wires_of cs)
                         | _ => True
                         end) script) as Hall.
    { repeat (constructor; [first [exact I|compute_done]|]). constructor. }
    rewrite Forall_forall in Hall. specialize (Hall c Hc).
    destruct c; try by apply elem_of_nil in He.
    destruct (decide _); [|by apply elem_of_nil in He].
    rewrite Forall_forall in Hall. by apply (Hall e).
  - exists "data/%s/%s.nii". split_and!; [by vm_compute..|].
    intros k v args Hkv Hargs.
    change (input (after io_nodes) "datasource" "template_args") with info in Hkv.
    unfold info, item in Hkv.
    apply lookup_insert_Some in Hkv as [[_ <-]|[_ Hkv]];
      [|apply lookup_singleton_Some in Hkv as [_ <-]];
      simpl in Hargs; apply list_elem_of_singleton in Hargs; by subst.
Qed.

(** ** The wiring of the workflows *)

Lemma wires_all_wires p w e : e ∈ wires p w → (w, e) ∈ all_wires p.
Proof.
  unfold wires, all_wires. rewrite !list_elem_of_bind.
  intros (c & He & Hc). exists c. split; [|done].
  destruct c; try by apply elem_of_nil in He.
  destruct (decide _) as [->|]; [|by apply elem_of_nil in He].
  apply list_elem_of_fmap. by exists e.
Qed.

Lemma position_lookup order x i : position order x = Some i → order !! i = Some x.
Proof.
  unfold position. intros Hp. apply fmap_Some in Hp as ([j y] & Hf & ->).
  by apply list_find_Some in Hf as (? & -> & _).
Qed.

Lemma forward_lookup order e :
  forward order e = true →
  ∃ i j, order !! i = Some (w_src e) ∧ order !! j = Some (w_dst e) ∧ (i < j)%nat.
Proof.
  unfold forward.
  destruct (position order (w_src e)) as [i|] eqn:Hi; [|done].
  destruct (position order (w_dst e)) as [j|] eqn:Hj; [|done].
  intros Hlt%bool_decide_eq_true. exists i, j.
  split_and!; [by apply position_lookup..|done].
Qed.

(** A relation that only runs forward in a listing without repetition has
    no cycle. *)
Lemma forward_acyclic (order : list string) (R : relation string) :
  NoDup order →
  (∀ a b, R a b →
     ∃ i j, order !! i = Some a ∧ order !! j = Some b ∧ (i < j)%nat) →
  ∀ a, ¬ tc R a a.
Proof.
  intros Hnd HR.
  assert (∀ a b, tc R a b →
    ∃ i j, order !! i = Some a ∧ order !! j = Some b ∧ (i < j)%nat) as Htc.
  { induction 1 as [a b Hab|a b c Hab _ (j' & k & Hj' & Hk & Hlt)]; [by apply HR|].
    destruct (HR a b Hab) as (i & j & Hi & Hj & Hij).
    assert (j = j') as -> by by eapply NoDup_lookup.
    exists i, k. split_and!; [done..|lia]. }
  intros a (i & j & Hi & Hj & Hij)%Htc.
  assert (i = j) by by eapply NoDup_lookup. lia.
Qed.

(** X10: no workflow has a cycle among its members.  The objects of the
    script can be listed so that every port pair any [connect] call asks
    for runs from an object to one listed later, so whichever calls are
    accepted, the connections among the members of a workflow, nodes or
    whole sub-workflows, contain no cycle.  In the store the script leaves
    once its repeated triple is removed, each of the five workflows holds
    connections, [surfanalysis] the five that [clone] copied, and none
    holds a cycle. *)
Theorem member_connections_are_acyclic :
  (∃ order,
     NoDup order ∧
     (∀ w a b, member_feeds script w a b →
        ∃ i j, order !! i = Some a ∧ order !! j = Some b ∧ (i < j)%nat) ∧
     ∀ w a, ¬ tc (member_feeds script w) a a) ∧
  length (edges (leave permissive repaired initial) "surfanalysis") = 5%nat ∧
  ∀ w, w ∈ ["preproc"; "volanalysis"; "surfanalysis"; "frameflow"; "metaflow"] →
    edges (leave permissive repaired initial) w ≠ [] ∧
    ¬ Exec.has_cycle (graph_of (leave permissive repaired initial) w).
Proof.
  split_and!; [|by vm_compute|].
  - set (order :=
      [ "sliceTiming"; "realign"; "bbregister"; "volsmooth"; "art"; "fssource";
        "binarize"; "dilate"; "modelspec"; "level1design"; "level1estimate";
        "contrastestimate"; "infosource"; "datasource"; "inputnode"; "preproc";
        "volanalysis"; "surfanalysis"; "frameflow"; "datasink" ]).
    assert (NoDup order) as Hnd by compute_done.
    assert (∀ w a b, member_feeds script w a b →
      ∃ i j, order !! i = Some a ∧ order !! j = Some b ∧ (i < j)%nat) as Hfw.
    { intros w a b (e & He & <- & <-). apply forward_lookup.
      assert (forallb (forward order) (all_wires script).*2 = true) as Hall
        by by vm_compute.
      rewrite forallb_forall in Hall. apply Hall, list_elem_of_In.
      apply list_elem_of_fmap. exists (w, e). split; [done|].
      by apply wires_all_wires. }
    exists order. split_and!; [done..|].
    intros w. apply (forward_acyclic order); [done|apply Hfw].
  - intros w Hw.
    repeat (apply elem_of_cons in Hw as [->|Hw];
      [split; [by vm_compute|];
       intros Hc; apply (cycle_is_CycleError any_port) in Hc;
       [vm_compute in Hc; discriminate|by vm_compute]|]).
    by apply elem_of_nil in Hw.
Qed.

(** X11: the surface analysis is wired like the volume analysis, from
    unsmoothed data.  Into [surfanalysis], [frameflow] connects the port
    pairs it connects into [volanalysis], except that
    [modelspec.functional_runs] comes from [realign.realigned_files] and not
    from [volsmooth.smoothed_files]; and the second [metaflow.connect] is
    the data sink part of the first with [volanalysis] and [vol_contrasts]
    replaced by [surfanalysis] and [surf_contrasts]. *)
Theorem surfanalysis_is_wired_like_volanalysis :
  filter (λ e, w_dport e ≠ "modelspec.functional_runs")
         (into script "frameflow" "surfanalysis") =
    redirect "surfanalysis" <$>
      filter (λ e, w_dport e ≠ "modelspec.functional_runs")
             (into script "frameflow" "volanalysis") ∧
  filter (λ e, w_dport e = "modelspec.functional_runs")
         (into script "frameflow" "volanalysis") =
    [Wire "preproc" (Out "volsmooth.smoothed_files") "volanalysis"
          "modelspec.functional_runs"] ∧
  filter (λ e, w_dport e = "modelspec.functional_runs")
         (into script "frameflow" "surfanalysis") =
    [Wire "preproc" (Out "realign.realigned_files") "surfanalysis"
          "modelspec.functional_runs"] ∧
  wires_of surf_metaflow_connections =
    (λ e, Wire (w_src e)
               (reprefix_port "volanalysis." "surfanalysis." (w_sport e))
               (w_dst e)
               (reprefix "vol_contrasts." "surf_contrasts." (w_dport e))) <$>
      filter (λ e, w_dst e = "datasink") (wires_of metaflow_connections).
Proof. split_and!; by vm_compute. Qed.





(** ** Names are bound before they are used *)

Section scope.
Variable reg : registry.
Implicit Types (s : state) (bound : list string).

Lemma binds_lookup s bound x : binds s bound → x ∈ bound → is_Some (env s !! x).
Proof. unfold binds. rewrite Forall_forall. auto. Qed.

Lemma binds_insert s bound x o h :
  binds s bound → binds (State (<[x := o]> (env s)) h) (x :: bound).
Proof.
  intros Hb. constructor; simpl.
  - by rewrite lookup_insert_eq.
  - eapply Forall_impl; [exact Hb|]. intros y [o' Hy]. simpl.
    destruct (decide (x = y)) as [->|].
    + by rewrite lookup_insert_eq.
    + by rewrite lookup_insert_ne.
Qed.

Lemma binds_heap s bound h : binds s bound → binds (State (env s) h) bound.
Proof. done. Qed.

Lemma eval_scoped s bound e :
  binds s bound → expr_scoped bound e = true → ∃ v, eval e s = inr v.
Proof.
  intros Hb He. destruct e as [v|x f]; simpl; [by eexists|].
  apply bool_decide_eq_true in He.
  destruct (binds_lookup s bound x Hb He) as [o ->]. by eexists.
Qed.

Lemma resolve_scoped ρ cs :
  Forall (λ c, is_Some (ρ !! c.1.1) ∧ is_Some (ρ !! c.1.2)) cs →
  ∃ r, resolve ρ cs = inr r.
Proof.
  induction 1 as [|[[x y] ps] cs [[ox Hx] [oy Hy]] _ [r IH]]; simpl in *.
  - by eexists.
  - rewrite Hx, Hy, IH. by eexists.
Qed.

Lemma connect_no_NameError h w cs x h' :
  Engine.connect reg h w cs ≠ Raise (NameError x) h'.
Proof.
  unfold Engine.connect. destruct (h !! w) as [[]|]; try done.
  by destruct (Engine.validate _ _ _ _).
Qed.

(** One statement whose names are bound: it raises no [NameError], and its
    bindings are those [scoped] goes on with. *)
Lemma exec_scoped c p s bound :
  binds s bound → scoped bound (c :: p) = true →
  match exec reg c s with
  | Ok s' => ∃ bound', binds s' bound' ∧ scoped bound' p = true
  | Raise e _ => ∀ x, e ≠ NameError x
  end.
Proof.
  intros Hb Hs. destruct c; simpl in Hs |- *.
  - eexists. split; [by apply binds_insert|done].
  - eexists. split; [by apply binds_insert|done].
  - apply andb_true_iff in Hs as [[Hx He]%andb_true_iff Hp].
    apply bool_decide_eq_true in Hx.
    destruct (eval_scoped s bound e Hb He) as [v ->].
    destruct (binds_lookup s bound x Hb Hx) as [o ->].
    destruct (set_input _ _ _ _); [|done]. by exists bound.
  - apply andb_true_iff in Hs as [[Hx He]%andb_true_iff Hp].
    apply bool_decide_eq_true in Hx.
    destruct (eval_scoped s bound e Hb He) as [v ->].
    destruct (binds_lookup s bound w Hb Hx) as [o ->].
    destruct (_ ≫= _); [|done]. by exists bound.
  - apply andb_true_iff in Hs as [Hx Hp]. apply bool_decide_eq_true in Hx.
    destruct (binds_lookup s bound x Hb Hx) as [o ->].
    destruct (heap s !! o) as [[]|]; try done. by exists bound.
  - apply andb_true_iff in Hs as [Hx Hp]. apply bool_decide_eq_true in Hx.
    destruct (binds_lookup s bound w Hb Hx) as [o ->].
    destruct (heap s !! o) as [[]|]; try done. by exists bound.
  - apply andb_true_iff in Hs as [[Hx Hcs]%andb_true_iff Hp].
    apply bool_decide_eq_true in Hx.
    destruct (binds_lookup s bound w Hb Hx) as [o ->].
    destruct (resolve_scoped (env s) cs) as [r ->].
    { rewrite forallb_forall in Hcs. apply Forall_forall. intros c Hc.
      apply list_elem_of_In, Hcs, andb_true_iff in Hc as [H1 H2].
      apply bool_decide_eq_true in H1, H2.
      split; by eapply binds_lookup. }
    destruct (Engine.connect reg (heap s) o r) as [h|e h] eqn:Hc.
    + by exists bound.
    + intros x ->. by eapply connect_no_NameError.
  - apply andb_true_iff in Hs as [Hx Hp]. apply bool_decide_eq_true in Hx.
    destruct (binds_lookup s bound w Hb Hx) as [o ->].
    destruct (Engine.clone _ _ _ _) as [[h o']|]; [|done].
    eexists. split; [by apply binds_insert|done].
Qed.

Lemma run_scoped p s bound :
  binds s bound → scoped bound p = true →
  ∀ x s', run reg p s ≠ Raise (NameError x) s'.
Proof.
  revert s bound. induction p as [|c p IH]; intros s bound Hb Hs x s'; [done|].
  simpl. pose proof (exec_scoped c p s bound Hb Hs) as Hc.
  destruct (exec reg c s) as [s1|e s1].
  - destruct Hc as (bound' & Hb' & Hs'). by eapply IH.
  - intros [= -> _]. by eapply Hc.
Qed.

End scope.

(** X14: no name is used before it is bound.  A program in which every
    statement names only variables bound by the statements before it never
    stops on a [NameError], whatever ports the engine knows; the script is
    such a program, and is no longer one without its first statement. *)
Theorem no_name_is_used_unbound :
  (∀ reg p s bound, binds s bound → scoped bound p = true →
     ∀ x s', run reg p s ≠ Raise (NameError x) s') ∧
  scoped [] script = true ∧
  (∀ reg x s', run reg script initial ≠ Raise (NameError x) s') ∧
  scoped [] (tail script) = false ∧
  ∀ reg, ∃ s', run reg (tail script) initial = Raise (NameError "preproc") s'.
Proof.
  split_and!.
  - apply run_scoped.
  - by vm_compute.
  - intros reg. apply (run_scoped reg script initial []); [constructor|by vm_compute].
  - by vm_compute.
  - intros reg. eexists. by vm_compute.
Qed.
